(** * Password-Policy-Enforcement-Tool: PasswordStrengthChecker.py

    A shallow embedding of the entropy estimator, the common-password
    matcher, the policy check of [main] and the compliant generator, and the
    properties the specification states about them.

    Modelling conventions.
    - A Python [str] is a list of Unicode code points ([N]).
    - A Python [float] is idealised as a real number.  Every entropy value the
      program computes is [L * log2 n] with [n] one of eleven alphabet sizes;
      the comparisons against 40 and 60 have the same outcome on reals and on
      doubles (the only exact tie, [n = 32], is computed exactly by
      [math.log2]).  [entropy_at_least] is the executable form of these
      comparisons.
    - [random] is a tape of naturals: each call of [_randbelow n] consumes
      one cell and returns it modulo [n].
    - The file system is a function from paths to what [open] and the
      iteration over the file do. *)

From Stdlib Require Import List Bool Arith NArith ZArith Lia.
From Stdlib Require Import Reals Lra Permutation.
From Stdlib Require Import Ascii String.
Import ListNotations.

Set Implicit Arguments.

(** ** Strings *)

Module Str.

Definition char := N.
Definition str := list char.

Definition of_string (s : string) : str :=
  map N_of_ascii (list_ascii_of_string s).

(** [c in s] for a one-character [c]. *)
Definition contains (s : str) (c : char) : bool := existsb (N.eqb c) s.

(** [a == b] on strings. *)
Fixpoint eqb (a b : str) : bool :=
  match a, b with
  | [], [] => true
  | x :: a', y :: b' => N.eqb x y && eqb a' b'
  | _, _ => false
  end.

(** The constants of Python's [string] module. *)
Definition ascii_lowercase : str := of_string "abcdefghijklmnopqrstuvwxyz".
Definition ascii_uppercase : str := of_string "ABCDEFGHIJKLMNOPQRSTUVWXYZ".
Definition digits : str := of_string "0123456789".
Definition punctuation : str :=
  of_string "!" ++ [34%N] ++ of_string "#$%&'()*+,-./:;<=>?@[\]^_`{|}~".

(** [str.isspace] on one code point: the white-space table of CPython
    ([_PyUnicode_IsWhitespace]). *)
Definition isspace (c : char) : bool :=
  ((9 <=? c) && (c <=? 13) || (28 <=? c) && (c <=? 32)
   || (c =? 133) || (c =? 160) || (c =? 5760)
   || (8192 <=? c) && (c <=? 8202)
   || (c =? 8232) || (c =? 8233) || (c =? 8239) || (c =? 8287)
   || (c =? 12288))%N.

Fixpoint lstrip (s : str) : str :=
  match s with
  | [] => []
  | c :: s' => if isspace c then lstrip s' else s
  end.

Definition rstrip (s : str) : str := rev (lstrip (rev s)).

(** [s.strip()] *)
Definition strip (s : str) : str := rstrip (lstrip s).

End Str.

Import Str.

(** ** Character classes (the [any(c in ... for c in password)] tests) *)

Definition any_in (alphabet : str) (password : str) : bool :=
  existsb (contains alphabet) password.

Definition has_lower := any_in ascii_lowercase.
Definition has_upper := any_in ascii_uppercase.
Definition has_digit := any_in digits.
Definition has_special := any_in punctuation.

(** ** calculate_entropy *)

Definition log2 (x : R) : R := (ln x / ln 2)%R.

(** The character-set size [N] accumulated by the four [if] statements. *)
Definition charset_size (password : str) : nat :=
  let N := 0 in
  let N := if has_lower password then N + 26 else N in
  let N := if has_upper password then N + 26 else N in
  let N := if has_digit password then N + 10 else N in
  let N := if has_special password then N + 32 else N in
  N.

Definition calculate_entropy (password : str) : R :=
  match password with
  | [] => 0%R
  | _ =>
      let L := List.length password in
      let N := charset_size password in
      if N =? 0 then 0%R else (INR L * log2 (INR N))%R
  end.

(** Executable comparison of the entropy with a whole number of bits:
    [k <= L * log2 N] iff [2 ^ k <= N ^ L]. *)
Definition entropy_at_least (k : nat) (password : str) : bool :=
  let L := List.length password in
  let N := charset_size password in
  if N =? 0 then k =? 0
  else (2 ^ Z.of_nat k <=? Z.of_nat N ^ Z.of_nat L)%Z.

(** ** check_common_password *)

(** What [open(path)] and the iteration [for line in f] do for a path. *)
Inductive file : Type :=
| Missing                       (* open raises FileNotFoundError *)
| Unopenable (e : string)       (* open raises another exception *)
| Lines (lines : list str) (fault : option string).
    (* the iteration yields [lines]; with [Some e] it then raises [e] *)

(** The [for] loop of lines 65-68: [true] at the first matching line. *)
Fixpoint scan_lines (password : str) (lines : list str) : bool :=
  match lines with
  | [] => false
  | line :: rest =>
      if Str.eqb (strip line) password then true
      else scan_lines password rest
  end.

Section Checker.

Variable fs : string -> file.

(** Returns the function's result and the lines it printed. *)
Definition check_common_password (password : str) (common_list_file : string)
  : bool * list string :=
  match fs common_list_file with
  | Missing =>
      (false,
       ["Warning: Common passwords file '" ++ common_list_file
          ++ "' not found."]%string)
  | Unopenable e =>
      (false, ["Error reading common passwords file: " ++ e]%string)
  | Lines lines fault =>
      if scan_lines password lines then (true, [])
      else
        match fault with
        | None => (false, [])
        | Some e =>
            (false, ["Error reading common passwords file: " ++ e]%string)
        end
  end.

(** ** get_strength_rating *)

Definition get_strength_rating (entropy : R) : string * list string :=
  if Rlt_dec entropy 40 then
    ("Very Weak",
     ["Increase password length (aim for at least 12-16 characters)";
      "Add uppercase letters";
      "Add lowercase letters";
      "Add numbers";
      "Add special characters (!@#$%^&*, etc.)"])%string
  else if Rlt_dec entropy 60 then
    ("Medium",
     ["Consider increasing password length further";
      "Ensure you're using a mix of all character types";
      "Avoid dictionary words or common patterns"])%string
  else
    ("Strong",
     ["Your password has good entropy";
      "Consider using a password manager for even stronger unique passwords";
      "Make sure this password is unique and not reused elsewhere"])%string.

(** ** The policy check of [main] (lines 242-266) *)

(** The five strings appended to [violation_reasons]; the second carries
    the entropy that its text renders with two decimals. *)
Inductive reason : Type :=
| CommonPassword
| EntropyBelowThreshold (entropy : R)
| MissingUppercase
| MissingDigit
| MissingSpecial.

Definition reason_text (fmt_2f : R -> string) (r : reason) : string :=
  match r with
  | CommonPassword => "Password found in common passwords list"
  | EntropyBelowThreshold entropy =>
      "Entropy (" ++ fmt_2f entropy
        ++ " bits) is below minimum threshold (40 bits)"
  | MissingUppercase => "Missing required Uppercase letter"
  | MissingDigit => "Missing required Number (Digit)"
  | MissingSpecial => "Missing required Special Character"
  end%string.

(** The two variables the checks mutate. *)
Record policy_state : Type := {
  policy_violation : bool;
  violation_reasons : list reason
}.

(** [policy_violation = True; violation_reasons.append(r)] *)
Definition violate (r : reason) (st : policy_state) : policy_state :=
  {| policy_violation := true;
     violation_reasons := violation_reasons st ++ [r] |}.

Definition policy_check (is_common : bool) (entropy : R)
    (has_upper has_digit has_special : bool) : policy_state :=
  let st := {| policy_violation := false; violation_reasons := [] |} in
  let st := if is_common then violate CommonPassword st else st in
  let st := if Rlt_dec entropy 40
            then violate (EntropyBelowThreshold entropy) st else st in
  let st := if negb has_upper then violate MissingUppercase st else st in
  let st := if negb has_digit then violate MissingDigit st else st in
  let st := if negb has_special then violate MissingSpecial st else st in
  st.

(** ** main *)

Inductive outcome : Type :=
| NoPasswordEntered                        (* line 218 *)
| PolicyViolation (reasons : list reason)  (* lines 269-280 *)
| Compliant (rating : string) (suggestions : list string)
| Generated (secure_password : str)
| Exited
| InvalidOption.

(** Option 1 of [main]: the outcome and the warnings the matcher printed. *)
Definition check_password_strength (password : str)
  : outcome * list string :=
  match password with
  | [] => (NoPasswordEntered, [])
  | _ =>
      let entropy := calculate_entropy password in
      let (is_common, printed) :=
        check_common_password password "common_passwords.txt" in
      let st := policy_check is_common entropy (has_upper password)
                  (has_digit password) (has_special password) in
      if policy_violation st then
        (PolicyViolation (violation_reasons st), printed)
      else
        let (rating, suggestions) := get_strength_rating entropy in
        (Compliant rating suggestions, printed)
  end.

End Checker.

(** ** random *)

Module Random.

(** A computation that reads a tape of random naturals from a cursor. *)
Definition Rand (A : Type) : Type := (nat -> nat) -> nat -> A * nat.

Definition ret {A} (a : A) : Rand A := fun _ i => (a, i).

Definition bind {A B} (m : Rand A) (k : A -> Rand B) : Rand B :=
  fun tape i => let (a, i') := m tape i in k a tape i'.

Definition run {A} (m : Rand A) (tape : nat -> nat) : A := fst (m tape 0).

(** [_randbelow(n)]: an integer in [0, n). *)
Definition randbelow (n : nat) : Rand nat :=
  fun tape i => (tape i mod n, S i).

End Random.

Import Random.

Notation "x <- m ;; k" := (bind m (fun x => k))
  (at level 61, m at next level, right associativity).

(** [random.choice(seq)] *)
Definition choice (seq : str) : Rand char :=
  k <- randbelow (List.length seq) ;; ret (nth k seq 0%N).

(** [random.randint(a, b)] *)
Definition randint (a b : nat) : Rand nat :=
  k <- randbelow (b - a + 1) ;; ret (a + k).

(** [x[i] = v] for an index in range. *)
Fixpoint set_item (i : nat) (v : char) (x : str) : str :=
  match x, i with
  | [], _ => []
  | _ :: x', 0 => v :: x'
  | c :: x', S i' => c :: set_item i' v x'
  end.

(** [x[i], x[j] = x[j], x[i]] *)
Definition swap (i j : nat) (x : str) : str :=
  let xj := nth j x 0%N in
  let xi := nth i x 0%N in
  set_item j xi (set_item i xj x).

(** [for i in reversed(range(1, len(x))): j = randbelow(i + 1); swap] *)
Fixpoint shuffle_from (i : nat) (x : str) : Rand str :=
  match i with
  | 0 => ret x
  | S i' => j <- randbelow (i + 1) ;; shuffle_from i' (swap i j x)
  end.

(** [random.shuffle(x)] *)
Definition shuffle (x : str) : Rand str :=
  shuffle_from (List.length x - 1) x.

(** [for _ in range(n): password_chars.append(random.choice(all_chars))] *)
Fixpoint append_choices (n : nat) (all_chars : str) (password_chars : str)
  : Rand str :=
  match n with
  | 0 => ret password_chars
  | S n' =>
      c <- choice all_chars ;;
      append_choices n' all_chars (password_chars ++ [c])
  end.

(** ** ctf_secure_generator *)

Definition min_length : nat := 10.

(** Steps 1 and 2: the three seeds, then the fill up to [min_length]. *)
Definition generator_prefix : Rand str :=
  let uppercase := ascii_uppercase in
  let lowercase := ascii_lowercase in
  let special_chars := punctuation in
  let password_chars := [] in
  c <- choice uppercase ;;
  let password_chars := password_chars ++ [c] in
  c <- choice digits ;;
  let password_chars := password_chars ++ [c] in
  c <- choice special_chars ;;
  let password_chars := password_chars ++ [c] in
  let all_chars := uppercase ++ lowercase ++ digits ++ special_chars in
  let remaining_length := Nat.max 0 (min_length - List.length password_chars) in
  append_choices remaining_length all_chars password_chars.

Definition ctf_secure_generator : Rand str :=
  let all_chars :=
    ascii_uppercase ++ ascii_lowercase ++ digits ++ punctuation in
  password_chars <- generator_prefix ;;
  additional_length <- randint 2 6 ;;
  password_chars <-
    append_choices additional_length all_chars password_chars ;;
  password_chars <- shuffle password_chars ;;
  ret password_chars.

(** [main]: the menu choice (stripped), then one of the three options. *)
Definition main (fs : string -> file) (tape : nat -> nat)
    (choice_input : str) (password : str) : outcome * list string :=
  let choice := strip choice_input in
  if Str.eqb choice (of_string "1") then check_password_strength fs password
  else if Str.eqb choice (of_string "2")
       then (Generated (run ctf_secure_generator tape), [])
  else if Str.eqb choice (of_string "3") then (Exited, [])
  else (InvalidOption, []).

(** ** Specification-side definitions *)

(** An exception is raised while the corpus is read for [password]: the file
    is missing or cannot be opened, or the iteration faults before any line
    has matched. *)
Definition read_fails (password : str) (f : file) : bool :=
  match f with
  | Missing | Unopenable _ => true
  | Lines lines (Some _) => negb (scan_lines password lines)
  | Lines _ None => false
  end.

(** The fixed priority order of the reasons. *)
Definition priority_order (entropy : R) : list reason :=
  [CommonPassword; EntropyBelowThreshold entropy; MissingUppercase;
   MissingDigit; MissingSpecial].

(** Whether a reason applies to the five values the checks read. *)
Definition applies (is_common : bool) (entropy : R) (hu hd hs : bool)
    (r : reason) : bool :=
  match r with
  | CommonPassword => is_common
  | EntropyBelowThreshold _ => if Rlt_dec entropy 40 then true else false
  | MissingUppercase => negb hu
  | MissingDigit => negb hd
  | MissingSpecial => negb hs
  end.

(** The four classes, as the specification names them. *)
Inductive char_class : Type := Lowercase | Uppercase | Digit | Special.

Definition alphabet (k : char_class) : str :=
  match k with
  | Lowercase => ascii_lowercase
  | Uppercase => ascii_uppercase
  | Digit => digits
  | Special => punctuation
  end.

Definition alphabet_size (k : char_class) : nat :=
  match k with
  | Lowercase => 26
  | Uppercase => 26
  | Digit => 10
  | Special => 32
  end.

Definition class_present (k : char_class) (password : str) : bool :=
  any_in (alphabet k) password.

(** [N] as the specification words it: the sum of the alphabet sizes of the
    classes present. *)
Definition alphabet_sum (password : str) : nat :=
  list_sum
    (map alphabet_size
       (filter (fun k => class_present k password)
          [Lowercase; Uppercase; Digit; Special])).

(** [returns m P]: whatever the tape and the cursor, the result satisfies [P]. *)
Definition returns {A} (m : Rand A) (P : A -> Prop) : Prop :=
  forall tape i, P (fst (m tape i)).

(** Three seeds of the mandatory classes followed by [n] further characters. *)
Definition seeded (n : nat) (p : str) : Prop :=
  exists u d s rest,
    p = u :: d :: s :: rest /\ In u ascii_uppercase /\ In d digits
    /\ In s punctuation /\ List.length rest = n.

(** The corpus file that exists and holds no line. *)
Definition empty_corpus : string -> file := fun _ => Lines [] None.

(** The tape on which every draw is 0. *)
Definition zero_tape : nat -> nat := fun _ => 0.

(** ** The generator's compliance report (lines 167-188) *)

(** ['PASS' if b else 'FAIL'] *)
Definition pass_fail (b : bool) : string :=
  if b then "PASS"%string else "FAIL"%string.

(** The verdict word of each of the five printed lines, in their order:
    minimum length, uppercase, number, special character, entropy.  The
    counts and the entropy that the lines also render are left out. *)
Definition compliance_report (secure_password : str) : list string :=
  let has_upper := any_in ascii_uppercase secure_password in
  let has_digit := any_in digits secure_password in
  let has_special := any_in punctuation secure_password in
  let has_min_length := min_length <=? List.length secure_password in
  let entropy := calculate_entropy secure_password in
  [pass_fail has_min_length;
   pass_fail has_upper;
   pass_fail has_digit;
   pass_fail has_special;
   if Rge_dec entropy 40 then "PASS"%string else "FAIL"%string].

(** [all_chars] of the generator: the 94 characters it draws from. *)
Definition all_chars : str :=
  ascii_uppercase ++ ascii_lowercase ++ digits ++ punctuation.

(** * Properties *)

(** ** Strings and character classes *)

Lemma eqb_eq (a b : str) : Str.eqb a b = true <-> a = b.
Proof.
  revert b. induction a as [|x a IH]; intros [|y b]; simpl;
    try (split; [discriminate | discriminate]); [tauto|].
  rewrite andb_true_iff, N.eqb_eq, IH.
  split; [intros [-> ->]; reflexivity | intros E; injection E; auto].
Qed.

Lemma contains_In (s : str) (c : char) : contains s c = true <-> In c s.
Proof.
  unfold contains. rewrite existsb_exists. split.
  - intros [x [Hx E]]. apply N.eqb_eq in E. now subst.
  - intros H. exists c. split; [assumption | apply N.eqb_refl].
Qed.

Lemma any_in_app (alphabet a b : str) :
  any_in alphabet (a ++ b) = any_in alphabet a || any_in alphabet b.
Proof. apply existsb_app. Qed.

Lemma any_in_intro (alphabet p : str) (c : char) :
  In c p -> In c alphabet -> any_in alphabet p = true.
Proof.
  intros Hp Ha. apply existsb_exists. exists c. split; [assumption|].
  now apply contains_In.
Qed.

Lemma any_in_perm (alphabet a b : str) :
  Permutation a b -> any_in alphabet a = any_in alphabet b.
Proof.
  intros H. induction H; simpl.
  - reflexivity.
  - now rewrite IHPermutation.
  - now destruct (contains alphabet x), (contains alphabet y).
  - congruence.
Qed.

Lemma lstrip_spaces (s : str) : forallb isspace s = true -> lstrip s = [].
Proof.
  induction s as [|c s IH]; simpl; [reflexivity|].
  intros H. apply andb_true_iff in H as [-> H]. auto.
Qed.

Lemma strip_spaces (s : str) : forallb isspace s = true -> strip s = [].
Proof. intros H. unfold strip. now rewrite (lstrip_spaces _ H). Qed.

Lemma alphabet_size_length (k : char_class) :
  alphabet_size k = List.length (alphabet k).
Proof. destruct k; reflexivity. Qed.

Lemma alphabet_sum_charset_size (password : str) :
  alphabet_sum password = charset_size password.
Proof.
  unfold alphabet_sum, charset_size, class_present, has_lower, has_upper,
    has_digit, has_special. simpl.
  destruct (any_in ascii_lowercase password), (any_in ascii_uppercase password),
    (any_in digits password), (any_in punctuation password); reflexivity.
Qed.

Lemma alphabets_disjoint (j k : char_class) (c : char) :
  contains (alphabet j) c = true -> contains (alphabet k) c = true -> j = k.
Proof.
  intros Hj Hk. apply contains_In in Hj.
  destruct j; simpl in Hj;
    repeat (destruct Hj as [<- | Hj]; [destruct k; (reflexivity || discriminate Hk)|]);
    contradiction.
Qed.

Lemma charset_size_empty : charset_size [] = 0.
Proof. reflexivity. Qed.

Lemma charset_size_range (password : str) :
  charset_size password = 0 \/ 10 <= charset_size password <= 94.
Proof.
  unfold charset_size.
  destruct (has_lower password), (has_upper password), (has_digit password),
    (has_special password); simpl; lia.
Qed.

Lemma charset_size_mandatory (password : str) :
  has_upper password = true -> has_digit password = true ->
  has_special password = true -> 68 <= charset_size password.
Proof.
  unfold charset_size. intros -> -> ->. destruct (has_lower password); simpl; lia.
Qed.

Lemma charset_size_perm (a b : str) :
  Permutation a b -> charset_size a = charset_size b.
Proof.
  intros H. unfold charset_size, has_lower, has_upper, has_digit, has_special.
  now rewrite !(any_in_perm _ H).
Qed.

(** ** Real-number facts behind the entropy comparisons *)

Section RealFacts.
Local Open Scope R_scope.

Lemma ln2_pos : 0 < ln 2.
Proof. rewrite <- ln_1. apply ln_increasing; lra. Qed.

Lemma ln_le_iff (a b : R) : 0 < a -> 0 < b -> (a <= b <-> ln a <= ln b).
Proof.
  intros Ha Hb. split; intros H.
  - destruct H as [H | ->]; [left; now apply ln_increasing | right; reflexivity].
  - destruct (Rle_or_lt a b) as [|Hlt]; [assumption|].
    apply (ln_increasing _ _ Hb) in Hlt. lra.
Qed.

Lemma log2_pos (x : R) : 1 < x -> 0 < log2 x.
Proof.
  intros Hx. unfold log2. apply Rdiv_lt_0_compat; [|apply ln2_pos].
  rewrite <- ln_1. apply ln_increasing; lra.
Qed.

(** [k <= L * log2 n] is the integer comparison [2 ^ k <= n ^ L]. *)
Lemma bits_le_pow (k L n : nat) :
  (1 <= n)%nat ->
  (INR k <= INR L * log2 (INR n)
   <-> (2 ^ Z.of_nat k <= Z.of_nat n ^ Z.of_nat L)%Z).
Proof.
  intros Hn.
  assert (Hn' : 0 < INR n) by (apply lt_0_INR; lia).
  assert (H2 : 0 < 2 ^ k) by (apply pow_lt; lra).
  assert (HnL : 0 < INR n ^ L) by (now apply pow_lt).
  assert (Hz : (2 ^ Z.of_nat k <= Z.of_nat n ^ Z.of_nat L)%Z
               <-> 2 ^ k <= INR n ^ L).
  { rewrite INR_IZR_INZ, !pow_IZR. split; [apply IZR_le | apply le_IZR]. }
  rewrite Hz, (ln_le_iff H2 HnL), !ln_pow by lra.
  unfold log2. pose proof ln2_pos as Hl.
  split; intros H.
  - apply (Rmult_le_compat_r (ln 2)) in H; [|lra].
    replace (INR L * (ln (INR n) / ln 2) * ln 2) with (INR L * ln (INR n)) in H
      by (field; lra).
    exact H.
  - apply (Rmult_le_reg_r (ln 2)); [lra|].
    replace (INR L * (ln (INR n) / ln 2) * ln 2) with (INR L * ln (INR n))
      by (field; lra).
    exact H.
Qed.

Lemma calculate_entropy_eq (password : str) :
  calculate_entropy password =
    if charset_size password =? 0 then 0
    else INR (List.length password) * log2 (INR (charset_size password)).
Proof. destruct password; reflexivity. Qed.

Lemma entropy_at_least_iff (k : nat) (password : str) :
  entropy_at_least k password = true <-> INR k <= calculate_entropy password.
Proof.
  rewrite calculate_entropy_eq. unfold entropy_at_least.
  destruct (Nat.eqb_spec (charset_size password) 0) as [E|E].
  - rewrite Nat.eqb_eq. split; [intros ->; simpl; lra|].
    intros H. destruct k; [reflexivity|].
    pose proof (lt_0_INR (S k) ltac:(lia)). lra.
  - rewrite Z.leb_le. symmetry. apply bits_le_pow. lia.
Qed.

Lemma entropy_below_iff (k : nat) (password : str) :
  entropy_at_least k password = false <-> calculate_entropy password < INR k.
Proof.
  pose proof (entropy_at_least_iff k password) as H.
  destruct (entropy_at_least k password); split; intros H'.
  - discriminate.
  - exfalso. assert (INR k <= calculate_entropy password) by now apply H. lra.
  - destruct (Rlt_or_le (calculate_entropy password) (INR k)); [assumption|].
    assert (false = true) by now apply H. discriminate.
  - reflexivity.
Qed.

Lemma INR_40 : INR 40 = 40.
Proof. rewrite INR_IZR_INZ. reflexivity. Qed.

Lemma INR_60 : INR 60 = 60.
Proof. rewrite INR_IZR_INZ. reflexivity. Qed.

Lemma calculate_entropy_nonneg (password : str) :
  0 <= calculate_entropy password.
Proof.
  change 0 with (INR 0). apply entropy_at_least_iff.
  unfold entropy_at_least.
  destruct (Nat.eqb_spec (charset_size password) 0); [reflexivity|].
  apply Z.leb_le. change (2 ^ Z.of_nat 0)%Z with 1%Z.
  assert (0 < Z.of_nat (charset_size password)
                ^ Z.of_nat (List.length password))%Z
    by (apply Z.pow_pos_nonneg; lia).
  lia.
Qed.

(** At least ten characters over at least 64 symbols give 60 bits. *)
Lemma entropy_60_of_length_10 (password : str) :
  (10 <= List.length password)%nat -> (64 <= charset_size password)%nat ->
  60 <= calculate_entropy password.
Proof.
  intros HL HN. rewrite <- INR_60. apply entropy_at_least_iff.
  unfold entropy_at_least.
  destruct (Nat.eqb_spec (charset_size password) 0); [lia|].
  apply Z.leb_le. change (2 ^ Z.of_nat 60)%Z with (64 ^ 10)%Z.
  apply Z.pow_le_mono; lia.
Qed.

End RealFacts.

(** ** The random monad: what every run of a computation returns *)

Lemma returns_ret {A} (a : A) (P : A -> Prop) : P a -> returns (ret a) P.
Proof. intros H tape i. exact H. Qed.

Lemma returns_bind {A B} (m : Rand A) (k : A -> Rand B)
    (Q : A -> Prop) (P : B -> Prop) :
  returns m Q -> (forall a, Q a -> returns (k a) P) -> returns (bind m k) P.
Proof.
  intros Hm Hk tape i. unfold bind.
  specialize (Hm tape i). destruct (m tape i) as [a i']. now apply Hk.
Qed.

Lemma returns_weaken {A} (m : Rand A) (Q P : A -> Prop) :
  returns m Q -> (forall a, Q a -> P a) -> returns m P.
Proof. intros Hm H tape i. apply H, Hm. Qed.

Lemma returns_run {A} (m : Rand A) (P : A -> Prop) (tape : nat -> nat) :
  returns m P -> P (run m tape).
Proof. intros H. apply H. Qed.

Lemma returns_randbelow (n : nat) :
  0 < n -> returns (randbelow n) (fun k => k < n).
Proof. intros Hn tape i. simpl. apply Nat.mod_upper_bound. lia. Qed.

Lemma returns_choice (seq : str) :
  seq <> [] -> returns (choice seq) (fun c => In c seq).
Proof.
  intros Hs. unfold choice.
  apply returns_bind with (Q := fun k => k < List.length seq).
  - apply returns_randbelow. destruct seq; [congruence | simpl; lia].
  - intros k Hk. apply returns_ret. now apply nth_In.
Qed.

Lemma returns_randint (a b : nat) :
  a <= b -> returns (randint a b) (fun k => a <= k <= b).
Proof.
  intros Hab. unfold randint.
  apply returns_bind with (Q := fun k => k < b - a + 1).
  - apply returns_randbelow. lia.
  - intros k Hk. apply returns_ret. lia.
Qed.

Lemma returns_append_choices (n : nat) (all_chars password_chars : str) :
  all_chars <> [] ->
  returns (append_choices n all_chars password_chars)
    (fun r => exists suffix,
       r = password_chars ++ suffix /\ List.length suffix = n
       /\ Forall (fun c => In c all_chars) suffix).
Proof.
  intros Hall. revert password_chars.
  induction n as [|n IH]; intros password_chars; simpl.
  - apply returns_ret. exists []. now rewrite app_nil_r.
  - apply returns_bind with (Q := fun c => In c all_chars).
    + now apply returns_choice.
    + intros c Hc. eapply returns_weaken; [apply IH|].
      intros r [suffix [-> [Hlen Hin]]]. exists (c :: suffix).
      rewrite <- app_assoc. simpl. repeat split; auto.
Qed.

(** ** shuffle returns a permutation *)

Lemma set_item_length (i : nat) (v : char) (x : str) :
  List.length (set_item i v x) = List.length x.
Proof.
  revert i. induction x as [|c x IH]; intros [|i]; simpl; auto.
Qed.

Lemma nth_set_item (i j : nat) (v : char) (x : str) :
  i < List.length x ->
  nth j (set_item i v x) 0%N = if j =? i then v else nth j x 0%N.
Proof.
  revert i j. induction x as [|c x IH]; intros [|i] [|j] H; simpl in *;
    try lia; try reflexivity.
  apply IH. lia.
Qed.

Lemma set_item_perm (i : nat) (v : char) (x : str) :
  i < List.length x ->
  Permutation (nth i x 0%N :: set_item i v x) (v :: x).
Proof.
  revert i. induction x as [|c x IH]; intros [|i] H; simpl in *; try lia.
  - apply perm_swap.
  - rewrite perm_swap. rewrite (IH i) by lia. apply perm_swap.
Qed.

Lemma swap_perm (i j : nat) (x : str) :
  i < List.length x -> j < List.length x -> Permutation (swap i j x) x.
Proof.
  intros Hi Hj. unfold swap.
  set (xi := nth i x 0%N). set (xj := nth j x 0%N).
  apply (Permutation_cons_inv (a := xj)).
  assert (E : nth j (set_item i xj x) 0%N = xj).
  { rewrite nth_set_item by assumption.
    destruct (Nat.eqb_spec j i); reflexivity. }
  rewrite <- E at 1.
  rewrite set_item_perm by (now rewrite set_item_length).
  apply set_item_perm. assumption.
Qed.

Lemma returns_shuffle_from (i : nat) (x : str) :
  i < List.length x -> returns (shuffle_from i x) (fun r => Permutation r x).
Proof.
  revert x. induction i as [|i IH]; intros x Hi; simpl.
  - apply returns_ret. reflexivity.
  - apply returns_bind with (Q := fun j => j < S i + 1).
    + apply returns_randbelow. lia.
    + intros j Hj.
      assert (Hp : Permutation (swap (S i) j x) x) by (apply swap_perm; lia).
      eapply returns_weaken.
      * apply IH. rewrite (Permutation_length Hp). lia.
      * intros r Hr. now rewrite Hr.
Qed.

Lemma returns_shuffle (x : str) :
  returns (shuffle x) (fun r => Permutation r x).
Proof.
  unfold shuffle. destruct x as [|c x].
  - apply returns_ret. reflexivity.
  - apply returns_shuffle_from. simpl. lia.
Qed.

(** ** The shape of what the generator builds *)

Lemma returns_generator_prefix :
  returns generator_prefix (seeded 7).
Proof.
  unfold generator_prefix.
  apply returns_bind with (Q := fun c => In c ascii_uppercase);
    [apply returns_choice; discriminate | intros u Hu].
  apply returns_bind with (Q := fun c => In c digits);
    [apply returns_choice; discriminate | intros d Hd].
  apply returns_bind with (Q := fun c => In c punctuation);
    [apply returns_choice; discriminate | intros s Hs].
  eapply returns_weaken; [apply returns_append_choices; discriminate|].
  intros r [suffix [-> [Hlen _]]]. exists u, d, s, suffix. auto.
Qed.

Lemma returns_ctf_secure_generator :
  returns ctf_secure_generator
    (fun p => exists q n, Permutation p q /\ seeded n q /\ 9 <= n <= 13).
Proof.
  unfold ctf_secure_generator.
  eapply returns_bind; [apply returns_generator_prefix|].
  intros q0 (u & d & s & rest & -> & Hu & Hd & Hs & Hlen).
  apply returns_bind with (Q := fun k => 2 <= k <= 6);
    [apply returns_randint; lia | intros k Hk].
  eapply returns_bind; [apply returns_append_choices; discriminate|].
  intros q [suffix [-> [Hlen' _]]].
  eapply returns_bind; [apply returns_shuffle|].
  intros p Hp. apply returns_ret.
  exists ((u :: d :: s :: rest) ++ suffix), (7 + k). split; [assumption|].
  split; [|lia].
  exists u, d, s, (rest ++ suffix).
  repeat split; try assumption. rewrite length_app. lia.
Qed.

Lemma seeded_classes (n : nat) (p : str) :
  seeded n p ->
  List.length p = 3 + n /\ has_upper p = true /\ has_digit p = true
  /\ has_special p = true.
Proof.
  intros (u & d & s & rest & -> & Hu & Hd & Hs & Hlen).
  split; [simpl; now rewrite Hlen|].
  split; [|split].
  - apply any_in_intro with (c := u); [now left | assumption].
  - apply any_in_intro with (c := d); [now right; left | assumption].
  - apply any_in_intro with (c := s); [now right; right; left | assumption].
Qed.

(** ** The matcher *)

Lemma scan_lines_iff (password : str) (lines : list str) :
  scan_lines password lines = true
  <-> exists line, In line lines /\ strip line = password.
Proof.
  induction lines as [|l lines IH]; simpl.
  - split; [discriminate | intros [line [[] _]]].
  - destruct (Str.eqb (strip l) password) eqn:E.
    + split; [|reflexivity]. intros _. exists l. split; [now left|].
      now apply eqb_eq.
    + rewrite IH. split.
      * intros [line [Hin Hs]]. exists line. split; [now right | assumption].
      * intros [line [[<- | Hin] Hs]].
        -- apply eqb_eq in Hs. congruence.
        -- exists line. now split.
Qed.

Lemma check_common_password_fails (fs : string -> file) (password : str)
    (path : string) :
  read_fails password (fs path) = true ->
  exists warning, check_common_password fs password path = (false, [warning]).
Proof.
  unfold read_fails, check_common_password.
  destruct (fs path) as [| e | lines [e|]]; intros H.
  - eexists. reflexivity.
  - eexists. reflexivity.
  - apply negb_true_iff in H. rewrite H. eexists. reflexivity.
  - discriminate.
Qed.

(** ** The policy check *)

Lemma policy_check_spec (is_common : bool) (entropy : R) (hu hd hs : bool) :
  let st := policy_check is_common entropy hu hd hs in
  (policy_violation st = true <-> violation_reasons st <> [])
  /\ violation_reasons st
     = filter (applies is_common entropy hu hd hs) (priority_order entropy).
Proof.
  unfold policy_check, applies, priority_order, violate. simpl.
  destruct is_common, (Rlt_dec entropy 40), hu, hd, hs; simpl;
    (split; [split; [discriminate | auto] | reflexivity])
    || (split; [split; [discriminate | intros H; now contradiction H] | reflexivity]).
Qed.

Lemma filter_priority_In (is_common : bool) (entropy : R) (hu hd hs : bool)
    (r : reason) :
  In r (filter (applies is_common entropy hu hd hs) (priority_order entropy))
  <-> (r = CommonPassword /\ is_common = true)
      \/ (r = EntropyBelowThreshold entropy /\ (entropy < 40)%R)
      \/ (r = MissingUppercase /\ hu = false)
      \/ (r = MissingDigit /\ hd = false)
      \/ (r = MissingSpecial /\ hs = false).
Proof.
  rewrite filter_In. unfold priority_order. simpl. split.
  - intros [[<- | [<- | [<- | [<- | [<- | []]]]]] Ha]; simpl in Ha.
    + left. auto.
    + right; left. split; [reflexivity|].
      destruct (Rlt_dec entropy 40); [assumption | discriminate].
    + right; right; left. split; [reflexivity | now apply negb_true_iff].
    + do 3 right; left. split; [reflexivity | now apply negb_true_iff].
    + do 4 right. split; [reflexivity | now apply negb_true_iff].
  - intros [[-> ->] | [[-> H] | [[-> ->] | [[-> ->] | [-> ->]]]]]; simpl;
      try (split; [tauto | reflexivity]).
    split; [tauto|]. destruct (Rlt_dec entropy 40); [reflexivity | contradiction].
Qed.

Lemma policy_check_pass (entropy : R) :
  (40 <= entropy)%R ->
  policy_check false entropy true true true
  = {| policy_violation := false; violation_reasons := [] |}.
Proof.
  intros H. unfold policy_check. simpl.
  destruct (Rlt_dec entropy 40); [lra | reflexivity].
Qed.

Lemma check_password_strength_eq (fs : string -> file) (password : str) :
  check_password_strength fs password =
    match password with
    | [] => (NoPasswordEntered, [])
    | _ =>
        let entropy := calculate_entropy password in
        let r := check_common_password fs password "common_passwords.txt" in
        let st := policy_check (fst r) entropy (has_upper password)
                    (has_digit password) (has_special password) in
        (if policy_violation st then PolicyViolation (violation_reasons st)
         else Compliant (fst (get_strength_rating entropy))
                (snd (get_strength_rating entropy)),
         snd r)
    end.
Proof.
  destruct password as [|c p]; [reflexivity|].
  unfold check_password_strength.
  destruct (check_common_password fs (c :: p) "common_passwords.txt") as [b w].
  cbv zeta. simpl fst. simpl snd.
  destruct (policy_violation _); [reflexivity|].
  destruct (get_strength_rating _). reflexivity.
Qed.

Lemma get_strength_rating_bands (entropy : R) :
  ((entropy < 40)%R -> fst (get_strength_rating entropy) = "Very Weak"%string)
  /\ ((40 <= entropy < 60)%R
      -> fst (get_strength_rating entropy) = "Medium"%string)
  /\ ((60 <= entropy)%R -> fst (get_strength_rating entropy) = "Strong"%string).
Proof.
  unfold get_strength_rating.
  destruct (Rlt_dec entropy 40), (Rlt_dec entropy 60); simpl;
    repeat split; intros; (reflexivity || lra).
Qed.

(** ** Monotonicity of the entropy estimate *)

Lemma charset_size_app_le (p e : str) :
  charset_size p <= charset_size (p ++ e).
Proof.
  unfold charset_size, has_lower, has_upper, has_digit, has_special.
  rewrite !any_in_app.
  destruct (any_in ascii_lowercase p), (any_in ascii_uppercase p),
    (any_in digits p), (any_in punctuation p),
    (any_in ascii_lowercase e), (any_in ascii_uppercase e),
    (any_in digits e), (any_in punctuation e); simpl; lia.
Qed.

Lemma any_in_single (a : str) (c : char) : any_in a [c] = contains a c.
Proof. unfold any_in. simpl. apply orb_false_r. Qed.

Lemma charset_size_app_present (p : str) (c : char) (k : char_class) :
  contains (alphabet k) c = true -> class_present k p = true ->
  charset_size (p ++ [c]) = charset_size p.
Proof.
  intros Hc Hp.
  assert (D : forall j, j <> k -> contains (alphabet j) c = false).
  { intros j Hj. destruct (contains (alphabet j) c) eqn:E; [|reflexivity].
    contradiction Hj. exact (alphabets_disjoint _ _ _ E Hc). }
  pose proof (D Lowercase) as DL. pose proof (D Uppercase) as DU.
  pose proof (D Digit) as DD. pose proof (D Special) as DS.
  unfold class_present in Hp.
  change (alphabet Lowercase) with ascii_lowercase in DL.
  change (alphabet Uppercase) with ascii_uppercase in DU.
  change (alphabet Digit) with digits in DD.
  change (alphabet Special) with punctuation in DS.
  unfold charset_size, has_lower, has_upper, has_digit, has_special.
  rewrite !any_in_app, !any_in_single.
  destruct k; simpl alphabet in Hp; rewrite Hp, ?orb_true_l;
    rewrite ?DL, ?DU, ?DD, ?DS by discriminate;
    rewrite ?orb_false_r; reflexivity.
Qed.

Section Monotone.
Local Open Scope R_scope.

Lemma log2_le (x y : R) : 0 < x -> x <= y -> log2 x <= log2 y.
Proof.
  intros Hx Hxy. unfold log2. pose proof ln2_pos.
  apply Rmult_le_compat_r; [left; now apply Rinv_0_lt_compat|].
  assert (Hy : 0 < y) by lra.
  apply (proj1 (ln_le_iff Hx Hy)). lra.
Qed.

(** A longer string over at least as many symbols has strictly more bits. *)
Lemma entropy_lt_of_longer (p q : str) :
  (0 < charset_size p)%nat ->
  (charset_size p <= charset_size q)%nat ->
  (List.length p < List.length q)%nat ->
  calculate_entropy p < calculate_entropy q.
Proof.
  intros HN HNq HL. rewrite !calculate_entropy_eq.
  destruct (Nat.eqb_spec (charset_size p) 0); [lia|].
  destruct (Nat.eqb_spec (charset_size q) 0); [lia|].
  destruct (charset_size_range p) as [|[Hp _]]; [lia|].
  assert (H1 : 1 < INR (charset_size p)).
  { change 1 with (INR 1). apply lt_INR. lia. }
  pose proof (log2_pos H1) as Hpos.
  assert (Hle : log2 (INR (charset_size p)) <= log2 (INR (charset_size q))).
  { apply log2_le; [lra | now apply le_INR]. }
  assert (HLR : INR (List.length p) < INR (List.length q)) by now apply lt_INR.
  assert (0 <= INR (List.length p)) by apply pos_INR.
  nra.
Qed.

End Monotone.

(** * The claims *)

Lemma generator_shape (tape : nat -> nat) :
  let password := run ctf_secure_generator tape in
  12 <= List.length password <= 16
  /\ has_upper password = true /\ has_digit password = true
  /\ has_special password = true.
Proof.
  cbv zeta.
  destruct (returns_run tape returns_ctf_secure_generator)
    as (q & n & Hp & Hq & Hn).
  destruct (seeded_classes Hq) as (Hlen & Hu & Hd & Hs).
  rewrite (Permutation_length Hp), Hlen.
  unfold has_upper, has_digit, has_special in *.
  rewrite !(any_in_perm _ Hp). repeat split; (lia || assumption).
Qed.

Lemma prefix_shape (tape : nat -> nat) :
  let prefix := run generator_prefix tape in
  List.length prefix = 10 /\ 68 <= charset_size prefix.
Proof.
  cbv zeta.
  destruct (seeded_classes (returns_run tape returns_generator_prefix))
    as (Hlen & Hu & Hd & Hs).
  split; [assumption | now apply charset_size_mandatory].
Qed.

(** C1.  Every output of [ctf_secure_generator] has at least 10 characters,
    contains an uppercase letter, a digit and a punctuation character, has an
    entropy estimate of at least 40 bits, and passes the policy check of
    [main] against an empty corpus. *)
Theorem generator_output_compliant (tape : nat -> nat) :
  let password := run ctf_secure_generator tape in
  10 <= List.length password
  /\ has_upper password = true
  /\ has_digit password = true
  /\ has_special password = true
  /\ (40 <= calculate_entropy password)%R
  /\ exists rating suggestions,
       check_password_strength empty_corpus password
       = (Compliant rating suggestions, []).
Proof.
  cbv zeta. destruct (generator_shape tape) as (Hlen & Hu & Hd & Hs).
  set (password := run ctf_secure_generator tape) in *.
  assert (He : (60 <= calculate_entropy password)%R).
  { apply entropy_60_of_length_10; [lia|].
    pose proof (charset_size_mandatory _ Hu Hd Hs). lia. }
  repeat split; try assumption; try lia; try lra.
  rewrite check_password_strength_eq.
  destruct password as [|c p]; [simpl in Hlen; lia|].
  change (fst (check_common_password empty_corpus (c :: p)
                 "common_passwords.txt")) with false.
  cbv zeta. rewrite Hu, Hd, Hs, policy_check_pass by lra.
  simpl. eexists. eexists. reflexivity.
Qed.

(** C2.  The verdict of the policy check: the violation flag is set iff the
    list of reasons is non-empty; the list is exactly the applicable reasons,
    all of them, in the order common password, entropy below 40, missing
    uppercase, missing digit, missing special; nothing else (in particular
    nothing about lowercase) is ever a reason; and option 1 of [main] reports
    this verdict for every password it evaluates. *)
Theorem policy_verdict (fs : string -> file) (password : str) :
  let is_common :=
    fst (check_common_password fs password "common_passwords.txt") in
  let entropy := calculate_entropy password in
  let hu := has_upper password in
  let hd := has_digit password in
  let hs := has_special password in
  let st := policy_check is_common entropy hu hd hs in
  (policy_violation st = true <-> violation_reasons st <> [])
  /\ violation_reasons st
     = filter (applies is_common entropy hu hd hs) (priority_order entropy)
  /\ (forall r,
        In r (violation_reasons st)
        <-> (r = CommonPassword /\ is_common = true)
            \/ (r = EntropyBelowThreshold entropy /\ (entropy < 40)%R)
            \/ (r = MissingUppercase /\ hu = false)
            \/ (r = MissingDigit /\ hd = false)
            \/ (r = MissingSpecial /\ hs = false))
  /\ fst (check_password_strength fs password)
     = match password with
       | [] => NoPasswordEntered
       | _ =>
           if policy_violation st
           then PolicyViolation (violation_reasons st)
           else Compliant (fst (get_strength_rating entropy))
                  (snd (get_strength_rating entropy))
       end.
Proof.
  cbv zeta.
  destruct (policy_check_spec
              (fst (check_common_password fs password "common_passwords.txt"))
              (calculate_entropy password) (has_upper password)
              (has_digit password) (has_special password)) as [Hflag Hlist].
  cbv zeta in Hflag, Hlist.
  split; [exact Hflag|]. split; [exact Hlist|]. split.
  - intros r. rewrite Hlist. apply filter_priority_In.
  - rewrite check_password_strength_eq. destruct password; reflexivity.
Qed.

(** C3.  The entropy estimate is [length * log2 N], with [N] the sum of the
    alphabet sizes (26, 26, 10, 32) of the classes present, and it is 0 for
    the empty password and when no recognised class is present. *)
Theorem entropy_formula (password : str) :
  calculate_entropy password
  = if (List.length password =? 0) || (alphabet_sum password =? 0)
    then 0%R
    else (INR (List.length password) * log2 (INR (alphabet_sum password)))%R.
Proof.
  rewrite alphabet_sum_charset_size, calculate_entropy_eq.
  destruct password as [|c p]; [reflexivity|]. reflexivity.
Qed.

(** C4.  Over a readable corpus the matcher answers [true] iff some line,
    stripped of leading and trailing white space, equals the password as
    given; the password is not stripped and the comparison is case
    sensitive. *)
Theorem matcher_exact_after_strip (password : str) (lines : list str)
    (path : string) :
  (fst (check_common_password (fun _ => Lines lines None) password path) = true
   <-> exists line, In line lines /\ strip line = password)
  /\ fst (check_common_password
            (fun _ => Lines [of_string "password123" ++ [10%N]] None)
            (of_string "Password123") path) = false
  /\ fst (check_common_password
            (fun _ => Lines [of_string "  password123  " ++ [10%N]] None)
            (of_string "password123") path) = true
  /\ fst (check_common_password
            (fun _ => Lines [of_string "password123" ++ [10%N]] None)
            (of_string " password123") path) = false.
Proof.
  split; [|repeat split; reflexivity].
  unfold check_common_password. rewrite <- scan_lines_iff.
  destruct (scan_lines password lines); simpl; tauto.
Qed.

(** C5, as the specification states it, fails at the empty password: with
    the corpus file missing, option 1 of [main] stops at its guard before the
    matcher is called, so no warning is printed and no verdict is reached. *)
Lemma empty_password_no_warning_no_verdict :
  read_fails [] (Missing) = true
  /\ main (fun _ => Missing) zero_tape (of_string "1") []
     = (NoPasswordEntered, []).
Proof. split; reflexivity. Qed.

(** C5, amended.  For every password, when reading the corpus raises (file
    missing, not openable, or a fault during the iteration), the matcher
    returns [False] and prints one warning instead of raising.  For every
    non-empty password option 1 of [main] then still reaches a verdict, with
    that warning printed: the verdict an empty corpus gives, which the
    entropy and the three class checks alone decide.  For the empty password
    [main] stops at its guard before the matcher is called: no warning, no
    verdict. *)
Theorem corpus_failure_degrades (fs : string -> file) (password : str) :
  read_fails password (fs "common_passwords.txt"%string) = true ->
  exists warning,
    check_common_password fs password "common_passwords.txt" = (false, [warning])
    /\ check_password_strength fs password
       = match password with
         | [] => (NoPasswordEntered, [])
         | _ => (fst (check_password_strength empty_corpus password), [warning])
         end
    /\ (let entropy := calculate_entropy password in
        let st := policy_check false entropy (has_upper password)
                    (has_digit password) (has_special password) in
        fst (check_password_strength fs password)
        = match password with
          | [] => NoPasswordEntered
          | _ =>
              if policy_violation st
              then PolicyViolation (violation_reasons st)
              else Compliant (fst (get_strength_rating entropy))
                     (snd (get_strength_rating entropy))
          end).
Proof.
  intros Hf. destruct (check_common_password_fails fs password _ Hf) as [w Hw].
  exists w. split; [assumption|].
  rewrite !check_password_strength_eq. cbv zeta.
  destruct password as [|c p]; [split; reflexivity|].
  rewrite Hw. split; reflexivity.
Qed.

Lemma corpus_failure_degrades_witness :
  exists warning,
    check_common_password (fun _ => Missing) (of_string "Tr0ub4dor&3")
      "common_passwords.txt" = (false, [warning])
    /\ check_password_strength (fun _ => Missing) (of_string "Tr0ub4dor&3")
       = (fst (check_password_strength empty_corpus (of_string "Tr0ub4dor&3")),
          [warning])
    /\ fst (check_password_strength (fun _ => Missing)
              (of_string "Tr0ub4dor&3"))
       = (if policy_violation
               (policy_check false
                  (calculate_entropy (of_string "Tr0ub4dor&3"))
                  (has_upper (of_string "Tr0ub4dor&3"))
                  (has_digit (of_string "Tr0ub4dor&3"))
                  (has_special (of_string "Tr0ub4dor&3")))
          then PolicyViolation
                 (violation_reasons
                    (policy_check false
                       (calculate_entropy (of_string "Tr0ub4dor&3"))
                       (has_upper (of_string "Tr0ub4dor&3"))
                       (has_digit (of_string "Tr0ub4dor&3"))
                       (has_special (of_string "Tr0ub4dor&3"))))
          else Compliant
                 (fst (get_strength_rating
                         (calculate_entropy (of_string "Tr0ub4dor&3"))))
                 (snd (get_strength_rating
                         (calculate_entropy (of_string "Tr0ub4dor&3"))))).
Proof.
  apply (@corpus_failure_degrades (fun _ => Missing) (of_string "Tr0ub4dor&3")).
  reflexivity.
Defined.

(** C6, as the specification states it, fails: on the empty password option 1
    of [main] stops at its guard and reports no verdict and no reason. *)
Lemma empty_password_gets_no_verdict :
  main empty_corpus zero_tape (of_string "1") []
  = (NoPasswordEntered, []).
Proof. reflexivity. Qed.

(** C6, amended.  The empty password is handled without an exception: its
    entropy estimate is 0, and option 1 of [main] rejects it at the guard
    with no verdict, whatever the corpus.  The policy checks, given what the
    empty password yields (entropy 0, no mandatory class, no corpus match),
    collect the entropy reason and the three missing-class reasons, in this
    order, and no common-password reason. *)
Theorem empty_password_flow (fs : string -> file) (tape : nat -> nat) :
  calculate_entropy [] = 0%R
  /\ check_password_strength fs [] = (NoPasswordEntered, [])
  /\ main fs tape (of_string "1") [] = (NoPasswordEntered, [])
  /\ policy_check false (calculate_entropy []) (has_upper []) (has_digit [])
       (has_special [])
     = {| policy_violation := true;
          violation_reasons :=
            [EntropyBelowThreshold 0; MissingUppercase; MissingDigit;
             MissingSpecial] |}.
Proof.
  repeat split. unfold policy_check. simpl.
  destruct (Rlt_dec 0 40)%R; [reflexivity | lra].
Qed.

(** C7, as the specification states it, fails: the ten characters built
    before the extra ones already carry at least 60 bits, on the tape of
    zeros (the worst case, [N = 68]) and on every other tape. *)
Lemma prefix_entropy_never_below_40 :
  charset_size (run generator_prefix zero_tape) = 68
  /\ (60 <= calculate_entropy (run generator_prefix zero_tape))%R
  /\ ~ (exists tape,
          (calculate_entropy (run generator_prefix tape) < 40)%R).
Proof.
  split; [reflexivity|].
  assert (H : forall tape,
             (60 <= calculate_entropy (run generator_prefix tape))%R).
  { intros tape. destruct (prefix_shape tape) as [HL HN].
    apply entropy_60_of_length_10; lia. }
  split; [apply H|]. intros [tape Ht]. specialize (H tape). lra.
Qed.

(** C7, amended.  Reaching the minimum length of 10 already guarantees an
    entropy estimate of at least 40 bits (indeed 60) for every composition the
    generator produces ([N >= 68]); the extra characters are not needed for
    the guarantee, each of them only raises the estimate further. *)
Theorem min_length_suffices (tape : nat -> nat) :
  let prefix := run generator_prefix tape in
  List.length prefix = 10
  /\ 68 <= charset_size prefix
  /\ (40 <= calculate_entropy prefix)%R
  /\ (60 <= calculate_entropy prefix)%R
  /\ forall c extra,
       (calculate_entropy prefix < calculate_entropy (prefix ++ c :: extra))%R.
Proof.
  cbv zeta. destruct (prefix_shape tape) as [HL HN].
  assert (H : (60 <= calculate_entropy (run generator_prefix tape))%R)
    by (apply entropy_60_of_length_10; lia).
  repeat split; try assumption; try lra.
  intros c extra. apply entropy_lt_of_longer.
  - lia.
  - apply charset_size_app_le.
  - rewrite length_app. simpl. lia.
Qed.

Lemma compliant_inv (fs : string -> file) (password : str)
    (rating : string) (suggestions printed : list string) :
  check_password_strength fs password = (Compliant rating suggestions, printed) ->
  (40 <= calculate_entropy password)%R
  /\ rating = fst (get_strength_rating (calculate_entropy password)).
Proof.
  rewrite check_password_strength_eq.
  destruct password as [|c p]; [discriminate|]. cbv zeta.
  set (e := calculate_entropy (c :: p)).
  destruct (policy_violation _) eqn:Hv; [discriminate|].
  intros H. injection H as <- _ _. split; [|reflexivity].
  destruct (Rlt_or_le e 40) as [Hlt|]; [|assumption].
  exfalso. revert Hv. unfold policy_check.
  destruct (fst _), (Rlt_dec e 40), (has_upper (c :: p)),
    (has_digit (c :: p)), (has_special (c :: p));
    simpl; try discriminate; contradiction.
Qed.

(** C8.  The rating depends on the entropy alone, by the bands below 40,
    from 40 to below 60, and from 60; a password that passes the policy
    check is never rated Very Weak: its rating is Medium or Strong. *)
Theorem rating_after_pass (entropy : R) (fs : string -> file)
    (password : str) :
  ((entropy < 40)%R -> fst (get_strength_rating entropy) = "Very Weak"%string)
  /\ ((40 <= entropy < 60)%R
      -> fst (get_strength_rating entropy) = "Medium"%string)
  /\ ((60 <= entropy)%R -> fst (get_strength_rating entropy) = "Strong"%string)
  /\ forall rating suggestions printed,
       check_password_strength fs password
       = (Compliant rating suggestions, printed) ->
       (40 <= calculate_entropy password)%R
       /\ rating = fst (get_strength_rating (calculate_entropy password))
       /\ (rating = "Medium"%string \/ rating = "Strong"%string).
Proof.
  destruct (get_strength_rating_bands entropy) as (B1 & B2 & B3).
  split; [exact B1|]. split; [exact B2|]. split; [exact B3|].
  intros rating suggestions printed H.
  destruct (compliant_inv _ _ H) as [He Hr].
  split; [exact He|]. split; [exact Hr|].
  rewrite Hr. unfold get_strength_rating.
  destruct (Rlt_dec (calculate_entropy password) 40); [lra|].
  destruct (Rlt_dec (calculate_entropy password) 60); simpl; auto.
Qed.

(** C9.  Appending a character of a class that is already present leaves [N]
    unchanged and strictly increases the entropy estimate. *)
Theorem append_present_class_increases (password : str) (c : char)
    (k : char_class) :
  contains (alphabet k) c = true ->
  class_present k password = true ->
  charset_size (password ++ [c]) = charset_size password
  /\ 10 <= charset_size password
  /\ (calculate_entropy password < calculate_entropy (password ++ [c]))%R.
Proof.
  intros Hc Hp.
  pose proof (charset_size_app_present _ _ _ Hc Hp) as HN.
  assert (H10 : 10 <= charset_size password).
  { unfold class_present in Hp. unfold charset_size.
    destruct k; simpl alphabet in Hp;
      [ change (has_lower password = true) in Hp
      | change (has_upper password = true) in Hp
      | change (has_digit password = true) in Hp
      | change (has_special password = true) in Hp ];
      rewrite Hp;
      destruct (has_lower password), (has_upper password),
        (has_digit password), (has_special password); simpl; lia. }
  repeat split; try assumption.
  apply entropy_lt_of_longer; [lia | lia |].
  rewrite length_app. simpl. lia.
Qed.

Lemma append_present_class_increases_witness :
  charset_size (of_string "summer" ++ [115%N])
  = charset_size (of_string "summer")
  /\ 10 <= charset_size (of_string "summer")
  /\ (calculate_entropy (of_string "summer")
      < calculate_entropy (of_string "summer" ++ [115%N]))%R.
Proof.
  apply (@append_present_class_increases (of_string "summer")
           (115%N) Lowercase); reflexivity.
Defined.

(** C10.  A corpus line that is empty or made of white space only matches
    the empty password. *)
Theorem blank_line_matches_empty_password (before after : list str)
    (line : str) (fault : option string) (path : string) :
  forallb isspace line = true ->
  check_common_password (fun _ => Lines (before ++ line :: after) fault)
    [] path = (true, []).
Proof.
  intros Hsp. unfold check_common_password.
  assert (H : scan_lines [] (before ++ line :: after) = true).
  { apply scan_lines_iff. exists line. split.
    - apply in_or_app. right. now left.
    - now apply strip_spaces. }
  now rewrite H.
Qed.

Lemma blank_line_matches_empty_password_witness :
  check_common_password
    (fun _ => Lines ([of_string "123456" ++ [10%N]] ++ [10%N]
                       :: [of_string "qwerty" ++ [10%N]]) None)
    [] "common_passwords.txt" = (true, []).
Proof.
  apply (@blank_line_matches_empty_password
           [of_string "123456" ++ [10%N]] [of_string "qwerty" ++ [10%N]]
           [10%N] None "common_passwords.txt").
  reflexivity.
Defined.

(** * Worked examples *)

(** The verdict of option 1 for a password that meets the policy, by
    evaluation: the entropy comparisons are the integer ones. *)
Lemma check_password_strength_pass (fs : string -> file) (password : str) :
  password <> [] ->
  fst (check_common_password fs password "common_passwords.txt") = false ->
  has_upper password = true ->
  has_digit password = true ->
  has_special password = true ->
  entropy_at_least 40 password = true ->
  exists suggestions,
    fst (check_password_strength fs password)
    = Compliant (if entropy_at_least 60 password then "Strong" else "Medium")
        suggestions.
Proof.
  intros Hne Hc Hu Hd Hs H40.
  apply entropy_at_least_iff in H40. rewrite INR_40 in H40.
  rewrite check_password_strength_eq. destruct password as [|c p]; [congruence|].
  cbv zeta. rewrite Hc, Hu, Hd, Hs, policy_check_pass by assumption.
  simpl fst. eexists. f_equal.
  destruct (get_strength_rating_bands (calculate_entropy (c :: p)))
    as (_ & B2 & B3).
  destruct (entropy_at_least 60 (c :: p)) eqn:H60.
  - apply B3. rewrite <- INR_60. now apply entropy_at_least_iff.
  - apply B2. split; [assumption|].
    rewrite <- INR_60. now apply entropy_below_iff.
Qed.

(** Seven characters over all four classes pass and are rated Medium. *)
Example medium_after_pass :
  exists suggestions,
    fst (check_password_strength empty_corpus (of_string "Aa1!aaa"))
    = Compliant "Medium" suggestions.
Proof.
  apply (@check_password_strength_pass empty_corpus (of_string "Aa1!aaa"));
    (discriminate || reflexivity).
Qed.

(** Scenario 2 of the specification: [N = 94], the checks on entropy and
    classes pass, and the rating is Strong. *)
Example scenario_2 :
  charset_size (of_string "P@ssw0rd123") = 94
  /\ exists suggestions,
       fst (check_password_strength empty_corpus (of_string "P@ssw0rd123"))
       = Compliant "Strong" suggestions.
Proof.
  split; [reflexivity|].
  apply (@check_password_strength_pass empty_corpus (of_string "P@ssw0rd123"));
    (discriminate || reflexivity).
Qed.

(** A password of one space has no recognised class: it gets the verdict
    that the guard of [main] keeps the empty password from. *)
Example single_space_verdict :
  check_password_strength empty_corpus (of_string " ")
  = (PolicyViolation
       [EntropyBelowThreshold 0; MissingUppercase; MissingDigit;
        MissingSpecial], []).
Proof.
  rewrite check_password_strength_eq. cbv zeta.
  change (calculate_entropy (of_string " ")) with 0%R.
  unfold policy_check. simpl.
  destruct (Rlt_dec 0 40)%R; [reflexivity | lra].
Qed.

(** Eight punctuation characters: exactly 40 bits, not below the threshold. *)
Example exactly_40_bits :
  calculate_entropy (of_string "!!!!!!!!") = 40%R.
Proof.
  rewrite calculate_entropy_eq.
  change (charset_size (of_string "!!!!!!!!")) with 32.
  change (List.length (of_string "!!!!!!!!")) with 8. simpl Nat.eqb. cbv iota.
  unfold log2. replace (INR 32) with (2 ^ 5)%R by (simpl; lra).
  rewrite ln_pow by lra. replace (INR 8) with 8%R by (simpl; lra).
  replace (INR 5) with 5%R by (simpl; lra).
  pose proof ln2_pos. field. lra.
Qed.

(** * Further properties *)

(** ** strip *)

Lemma lstrip_head (s : str) (c : char) (r : str) :
  lstrip s = c :: r -> isspace c = false.
Proof.
  induction s as [|a s IH]; simpl; [discriminate|].
  destruct (isspace a) eqn:E; [exact IH|].
  intros H. injection H as <- _. exact E.
Qed.

Lemma lstrip_fixed (s : str) :
  match s with [] => True | c :: _ => isspace c = false end -> lstrip s = s.
Proof. destruct s as [|c s]; simpl; [reflexivity|]. now intros ->. Qed.

Lemma lstrip_spaces_app (ws s : str) :
  forallb isspace ws = true -> lstrip (ws ++ s) = lstrip s.
Proof.
  induction ws as [|c ws IH]; simpl; [reflexivity|].
  intros H. apply andb_true_iff in H as [-> H]. auto.
Qed.

Lemma lstrip_keeps_last (x : str) (d : char) :
  isspace d = false -> exists y, lstrip (x ++ [d]) = y ++ [d].
Proof.
  intros Hd. induction x as [|a x IH]; simpl.
  - rewrite Hd. now exists [].
  - destruct (isspace a); [exact IH|]. now exists (a :: x).
Qed.

(** A stripped string neither starts nor ends with white space. *)
Lemma strip_ends (s : str) :
  (forall c r, strip s = c :: r -> isspace c = false)
  /\ (forall r c, strip s = r ++ [c] -> isspace c = false).
Proof.
  unfold strip, rstrip. split.
  - intros c r H. destruct (lstrip s) as [|d t] eqn:Et.
    + discriminate.
    + pose proof (lstrip_head _ Et) as Hd. simpl rev in H.
      destruct (@lstrip_keeps_last (rev t) d Hd) as [y Hy].
      rewrite Hy, rev_app_distr in H. simpl in H. injection H as <- _.
      exact Hd.
  - intros r c H. apply (f_equal (@rev char)) in H.
    rewrite rev_involutive, rev_app_distr in H. simpl in H.
    exact (lstrip_head _ H).
Qed.

Lemma strip_idempotent (s : str) : strip (strip s) = strip s.
Proof.
  destruct (strip_ends s) as [Hh _].
  assert (Hl : lstrip (strip s) = strip s).
  { apply lstrip_fixed. destruct (strip s) eqn:E; [exact I|]. eapply Hh. reflexivity. }
  unfold strip at 1. rewrite Hl. unfold strip, rstrip.
  rewrite rev_involutive. f_equal. apply lstrip_fixed.
  destruct (lstrip (rev (lstrip s))) eqn:E; [exact I|]. exact (lstrip_head _ E).
Qed.

(** White space around a string that stripping leaves alone is removed. *)
Lemma strip_padded (ws1 ws2 s : str) :
  forallb isspace ws1 = true -> forallb isspace ws2 = true ->
  strip s = s -> strip (ws1 ++ s ++ ws2) = s.
Proof.
  intros H1 H2 Hs. unfold strip. rewrite (@lstrip_spaces_app ws1 _ H1).
  destruct s as [|c s'].
  - simpl. now rewrite (@lstrip_spaces ws2 H2).
  - assert (Hc : isspace c = false)
      by (destruct (strip_ends (c :: s')) as [Hh _]; exact (Hh c s' Hs)).
    assert (Hr : rstrip (c :: s') = c :: s').
    { unfold strip in Hs. rewrite (@lstrip_fixed (c :: s') Hc) in Hs. exact Hs. }
    rewrite (@lstrip_fixed ((c :: s') ++ ws2) Hc).
    unfold rstrip in *. rewrite rev_app_distr, lstrip_spaces_app; [exact Hr|].
    rewrite forallb_forall in *. intros x Hx. apply H2. now apply in_rev.
Qed.

(** ** check_common_password *)

Lemma scan_lines_app (password : str) (l1 l2 : list str) :
  scan_lines password (l1 ++ l2)
  = scan_lines password l1 || scan_lines password l2.
Proof.
  induction l1 as [|l l1 IH]; simpl; [reflexivity|].
  destruct (Str.eqb (strip l) password); [reflexivity | exact IH].
Qed.

Lemma scan_lines_false (password : str) (lines : list str) :
  (forall line, In line lines -> strip line <> password) ->
  scan_lines password lines = false.
Proof.
  intros H. destruct (scan_lines password lines) eqn:E; [|reflexivity].
  apply scan_lines_iff in E as [line [Hin Hs]]. now apply H in Hin.
Qed.

Lemma check_common_password_false (fs : string -> file) (password : str)
    (path : string) :
  (forall line, strip line <> password) ->
  fst (check_common_password fs password path) = false.
Proof.
  intros H. unfold check_common_password.
  destruct (fs path) as [| e | lines fault]; try reflexivity.
  rewrite scan_lines_false by (intros line _; apply H).
  destruct fault; reflexivity.
Qed.

(** X1.  A password that starts or ends with a white-space character is never
    reported as common, whatever the corpus file holds: the lines are
    stripped, the password is not. *)
Theorem padded_password_never_matches (fs : string -> file) (path : string)
    (password : str) (c : char) :
  isspace c = true ->
  fst (check_common_password fs (c :: password) path) = false
  /\ fst (check_common_password fs (password ++ [c]) path) = false.
Proof.
  intros Hc. split; apply check_common_password_false; intros line Hs;
    destruct (strip_ends line) as [Hh Hl].
  - rewrite (Hh _ _ Hs) in Hc. discriminate.
  - rewrite (Hl _ _ Hs) in Hc. discriminate.
Qed.

Lemma padded_password_never_matches_witness :
  fst (check_common_password
         (fun _ => Lines [of_string "password" ++ [10%N]] None)
         (32%N :: of_string "password") "common_passwords.txt") = false
  /\ fst (check_common_password
            (fun _ => Lines [of_string "password" ++ [10%N]] None)
            (of_string "password" ++ [32%N]) "common_passwords.txt") = false.
Proof.
  apply (@padded_password_never_matches
           (fun _ => Lines [of_string "password" ++ [10%N]] None)
           "common_passwords.txt" (of_string "password") 32%N).
  reflexivity.
Defined.

(** X2.  A corpus line made of the password with white space on both sides
    matches, for every password that does not itself start or end with
    white space. *)
Theorem padded_line_matches (before after : list str) (ws1 ws2 : str)
    (password : str) (fault : option string) (path : string) :
  forallb isspace ws1 = true ->
  forallb isspace ws2 = true ->
  strip password = password ->
  check_common_password
    (fun _ => Lines (before ++ (ws1 ++ password ++ ws2) :: after) fault)
    password path = (true, []).
Proof.
  intros H1 H2 Hs. unfold check_common_password.
  rewrite scan_lines_app. simpl scan_lines.
  rewrite (strip_padded _ _ H1 H2 Hs).
  rewrite (proj2 (eqb_eq password password) eq_refl).
  now rewrite orb_true_r.
Qed.

Lemma padded_line_matches_witness :
  check_common_password
    (fun _ => Lines ([of_string "123456"]
                       ++ (of_string "  " ++ of_string "let me in"
                             ++ [9%N; 13%N; 10%N])
                       :: [of_string "qwerty"]) None)
    (of_string "let me in") "common_passwords.txt" = (true, []).
Proof.
  apply (@padded_line_matches [of_string "123456"] [of_string "qwerty"]
           (of_string "  ") [9%N; 13%N; 10%N] (of_string "let me in") None
           "common_passwords.txt"); reflexivity.
Defined.

(** X3.  A line that matches before the iteration faults is found: the
    result is [True] and nothing is printed, the fault is never reached. *)
Theorem match_before_fault (before after : list str) (line : str)
    (password : str) (e : string) (path : string) :
  strip line = password ->
  check_common_password
    (fun _ => Lines (before ++ line :: after) (Some e)) password path
  = (true, []).
Proof.
  intros Hs. unfold check_common_password.
  assert (H : scan_lines password (before ++ line :: after) = true).
  { apply scan_lines_iff. exists line. split; [|assumption].
    apply in_or_app. right. now left. }
  now rewrite H.
Qed.

Lemma match_before_fault_witness :
  check_common_password
    (fun _ => Lines ([] ++ (of_string "dragon" ++ [10%N]) :: [])
                (Some "'utf-8' codec can't decode byte 0xff"%string))
    (of_string "dragon") "common_passwords.txt"
  = (true, []).
Proof.
  apply (@match_before_fault [] [] (of_string "dragon" ++ [10%N])
           (of_string "dragon") "'utf-8' codec can't decode byte 0xff"
           "common_passwords.txt").
  reflexivity.
Defined.

(** X4.  Over readable corpora the answer for two corpora put one after the
    other is the disjunction of the two answers; so adding lines never
    removes a match, and the order of the parts does not matter. *)
Theorem matcher_concatenation (password : str) (l1 l2 : list str)
    (path : string) :
  fst (check_common_password (fun _ => Lines (l1 ++ l2) None) password path)
  = fst (check_common_password (fun _ => Lines l1 None) password path)
    || fst (check_common_password (fun _ => Lines l2 None) password path)
  /\ fst (check_common_password (fun _ => Lines (l1 ++ l2) None) password path)
     = fst (check_common_password (fun _ => Lines (l2 ++ l1) None)
              password path).
Proof.
  unfold check_common_password. rewrite !scan_lines_app.
  destruct (scan_lines password l1), (scan_lines password l2); split; reflexivity.
Qed.

(** ** main *)

(** X5.  The menu choice is read up to surrounding white space: a padded
    [1] runs the check, a padded [2] the generator, a padded [3] exits. *)
Theorem main_dispatch (fs : string -> file) (tape : nat -> nat)
    (password ws1 ws2 : str) :
  forallb isspace ws1 = true ->
  forallb isspace ws2 = true ->
  main fs tape (ws1 ++ of_string "1" ++ ws2) password
  = check_password_strength fs password
  /\ main fs tape (ws1 ++ of_string "2" ++ ws2) password
     = (Generated (run ctf_secure_generator tape), [])
  /\ main fs tape (ws1 ++ of_string "3" ++ ws2) password = (Exited, [])
  /\ main fs tape (ws1 ++ ws2) password = (InvalidOption, []).
Proof.
  intros H1 H2. unfold main.
  rewrite !(strip_padded _ _ H1 H2) by reflexivity.
  replace (strip (ws1 ++ ws2)) with (@nil char)
    by (symmetry; apply (strip_padded ws1 ws2 (s := [])); auto).
  repeat split.
Qed.

Lemma main_dispatch_witness :
  main empty_corpus zero_tape (of_string " " ++ of_string "1" ++ [10%N])
    (of_string "hunter2")
  = check_password_strength empty_corpus (of_string "hunter2")
  /\ main empty_corpus zero_tape (of_string " " ++ of_string "2" ++ [10%N])
       (of_string "hunter2")
     = (Generated (run ctf_secure_generator zero_tape), [])
  /\ main empty_corpus zero_tape (of_string " " ++ of_string "3" ++ [10%N])
       (of_string "hunter2") = (Exited, [])
  /\ main empty_corpus zero_tape (of_string " " ++ [10%N])
       (of_string "hunter2") = (InvalidOption, []).
Proof.
  apply (@main_dispatch empty_corpus zero_tape (of_string "hunter2")
           (of_string " ") [10%N]); reflexivity.
Defined.

(** ** calculate_entropy *)

Section EntropyFacts.
Local Open Scope R_scope.

(** X6.  The estimate looks at which characters occur and how many there are,
    not at their order: rearranging a password leaves it unchanged. *)
Theorem entropy_permutation_invariant (p q : str) :
  Permutation p q -> calculate_entropy p = calculate_entropy q.
Proof.
  intros H. rewrite !calculate_entropy_eq.
  now rewrite (charset_size_perm H), (Permutation_length H).
Qed.

Lemma entropy_permutation_invariant_witness :
  calculate_entropy (of_string "Tr0ub4dor&3")
  = calculate_entropy (rev (of_string "Tr0ub4dor&3")).
Proof.
  apply (@entropy_permutation_invariant (of_string "Tr0ub4dor&3")
           (rev (of_string "Tr0ub4dor&3"))).
  apply Permutation_rev.
Defined.

(** X7.  The estimate is never negative and never exceeds
    [length * log2 94], the value for a password over all four classes. *)
Theorem entropy_bounds (password : str) :
  0 <= calculate_entropy password
  <= INR (List.length password) * log2 94.
Proof.
  split; [apply calculate_entropy_nonneg|].
  rewrite calculate_entropy_eq.
  assert (H94 : 0 < log2 94) by (apply log2_pos; lra).
  pose proof (pos_INR (List.length password)) as HL.
  destruct (Nat.eqb_spec (charset_size password) 0) as [E|E]; [nra|].
  destruct (charset_size_range password) as [|[Hlo Hhi]]; [contradiction|].
  apply Rmult_le_compat_l; [assumption|].
  replace 94 with (INR 94) by (rewrite INR_IZR_INZ; reflexivity).
  apply log2_le; [apply lt_0_INR; lia | apply le_INR; assumption].
Qed.

(** X8.  Appending characters, of whatever kind, never lowers the
    estimate. *)
Theorem entropy_monotone_append (password extra : str) :
  calculate_entropy password <= calculate_entropy (password ++ extra).
Proof.
  destruct extra as [|c extra]; [rewrite app_nil_r; lra|].
  destruct (Nat.eq_dec (charset_size password) 0) as [E|E].
  - rewrite (calculate_entropy_eq password), E. simpl.
    apply calculate_entropy_nonneg.
  - left. apply entropy_lt_of_longer.
    + lia.
    + apply charset_size_app_le.
    + rewrite length_app. simpl. lia.
Qed.

End EntropyFacts.

(** ** The policy check of main *)

Lemma any_in_outside (a p : str) :
  forallb (fun c => negb (contains a c)) p = true -> any_in a p = false.
Proof.
  unfold any_in. induction p as [|c p IH]; simpl; [reflexivity|].
  intros H. apply andb_true_iff in H as [Hc H].
  apply negb_true_iff in Hc. rewrite Hc. auto.
Qed.

Lemma contains_app (a b : str) (c : char) :
  contains (a ++ b) c = contains a c || contains b c.
Proof. apply existsb_app. Qed.

Lemma outside_all_chars (p : str) :
  forallb (fun c => negb (contains all_chars c)) p = true ->
  has_lower p = false /\ has_upper p = false /\ has_digit p = false
  /\ has_special p = false.
Proof.
  intros H.
  assert (Hc : forall c, In c p -> contains all_chars c = false).
  { intros c Hin. rewrite forallb_forall in H. apply H in Hin.
    now apply negb_true_iff. }
  unfold all_chars in Hc.
  repeat split; apply any_in_outside, forallb_forall; intros c Hin;
    specialize (Hc c Hin); rewrite !contains_app in Hc;
    apply negb_true_iff;
    destruct (contains ascii_uppercase c), (contains ascii_lowercase c),
      (contains digits c), (contains punctuation c);
      (reflexivity || discriminate).
Qed.

(** X9.  A non-empty password without any letter, digit or punctuation
    character (white space, non-ASCII characters) has the estimate 0, however
    long it is, and is refused with the entropy reason and the three
    missing-class reasons, after the common-password reason if it is in the
    corpus. *)
Theorem unrecognised_password_verdict (fs : string -> file) (password : str) :
  password <> [] ->
  forallb (fun c => negb (contains all_chars c)) password = true ->
  calculate_entropy password = 0%R
  /\ check_password_strength fs password
     = (PolicyViolation
          ((if fst (check_common_password fs password "common_passwords.txt")
            then [CommonPassword] else [])
           ++ [EntropyBelowThreshold 0; MissingUppercase; MissingDigit;
               MissingSpecial]),
        snd (check_common_password fs password "common_passwords.txt")).
Proof.
  intros Hne Hout.
  destruct (outside_all_chars _ Hout) as (Hl & Hu & Hd & Hs).
  assert (He : calculate_entropy password = 0%R).
  { rewrite calculate_entropy_eq. unfold charset_size.
    now rewrite Hl, Hu, Hd, Hs. }
  split; [exact He|].
  rewrite check_password_strength_eq. destruct password as [|c p]; [congruence|].
  cbv zeta. rewrite He, Hu, Hd, Hs. unfold policy_check. simpl.
  destruct (Rlt_dec 0 40)%R; [|lra].
  destruct (fst (check_common_password fs (c :: p) "common_passwords.txt"));
    reflexivity.
Qed.

Lemma unrecognised_password_verdict_witness :
  calculate_entropy [32%N; 241%N; 8364%N; 9%N] = 0%R
  /\ check_password_strength empty_corpus [32%N; 241%N; 8364%N; 9%N]
     = (PolicyViolation
          ((if fst (check_common_password empty_corpus
                      [32%N; 241%N; 8364%N; 9%N] "common_passwords.txt")
            then [CommonPassword] else [])
           ++ [EntropyBelowThreshold 0; MissingUppercase; MissingDigit;
               MissingSpecial]),
        snd (check_common_password empty_corpus [32%N; 241%N; 8364%N; 9%N]
               "common_passwords.txt")).
Proof.
  apply (@unrecognised_password_verdict empty_corpus
           [32%N; 241%N; 8364%N; 9%N]); [discriminate | reflexivity].
Defined.

Lemma policy_check_common (entropy : R) (hu hd hs : bool) :
  exists rest,
    policy_check true entropy hu hd hs
    = {| policy_violation := true; violation_reasons := CommonPassword :: rest |}.
Proof.
  unfold policy_check, violate. simpl.
  destruct (Rlt_dec entropy 40), hu, hd, hs; simpl; eexists; reflexivity.
Qed.

(** X10.  A password found in the corpus is refused whatever its strength,
    and the common-password reason is the first one listed. *)
Theorem common_password_refused (fs : string -> file) (password : str) :
  password <> [] ->
  fst (check_common_password fs password "common_passwords.txt") = true ->
  exists rest,
    fst (check_password_strength fs password)
    = PolicyViolation (CommonPassword :: rest).
Proof.
  intros Hne Hc. rewrite check_password_strength_eq.
  destruct password as [|c p]; [congruence|]. cbv zeta. rewrite Hc.
  destruct (policy_check_common (calculate_entropy (c :: p))
              (has_upper (c :: p)) (has_digit (c :: p))
              (has_special (c :: p))) as [rest ->].
  exists rest. reflexivity.
Qed.

Lemma common_password_refused_witness :
  exists rest,
    fst (check_password_strength
           (fun _ => Lines [of_string "Tr0ub4dor&3" ++ [10%N]] None)
           (of_string "Tr0ub4dor&3"))
    = PolicyViolation (CommonPassword :: rest).
Proof.
  apply (@common_password_refused
           (fun _ => Lines [of_string "Tr0ub4dor&3" ++ [10%N]] None)
           (of_string "Tr0ub4dor&3")); [discriminate | reflexivity].
Defined.

Lemma policy_check_no_violation (is_common : bool) (entropy : R)
    (hu hd hs : bool) :
  policy_violation (policy_check is_common entropy hu hd hs) = false
  <-> is_common = false /\ (40 <= entropy)%R /\ hu = true /\ hd = true
      /\ hs = true.
Proof.
  unfold policy_check, violate.
  destruct is_common, (Rlt_dec entropy 40), hu, hd, hs; simpl;
    (split; [intros H | intros (H1 & H2 & H3 & H4 & H5)]);
    try discriminate; try lra; try reflexivity;
    try (repeat split; lra).
Qed.

(** With the three mandatory classes present, 40 bits are 7 characters and
    60 bits are 10. *)
Lemma mandatory_entropy_by_length (password : str) :
  has_upper password = true -> has_digit password = true ->
  has_special password = true ->
  entropy_at_least 40 password = (7 <=? List.length password)
  /\ entropy_at_least 60 password = (10 <=? List.length password).
Proof.
  intros Hu Hd Hs.
  assert (HN : charset_size password = 68 \/ charset_size password = 94).
  { unfold charset_size. rewrite Hu, Hd, Hs.
    destruct (has_lower password); simpl; auto. }
  unfold entropy_at_least.
  assert (Hnz : (charset_size password =? 0) = false)
    by (apply Nat.eqb_neq; lia).
  rewrite Hnz. set (L := List.length password). set (N := charset_size password) in *.
  assert (B : (68 <= Z.of_nat N <= 94)%Z) by lia.
  split.
  - destruct (Nat.leb_spec 7 L) as [H|H]; [apply Z.leb_le | apply Z.leb_gt].
    + apply Z.le_trans with (68 ^ 7)%Z; [now vm_compute|].
      apply Z.pow_le_mono; lia.
    + apply Z.le_lt_trans with (94 ^ 6)%Z; [|now vm_compute].
      apply Z.pow_le_mono; lia.
  - destruct (Nat.leb_spec 10 L) as [H|H]; [apply Z.leb_le | apply Z.leb_gt].
    + apply Z.le_trans with (68 ^ 10)%Z; [now vm_compute|].
      apply Z.pow_le_mono; lia.
    + apply Z.le_lt_trans with (94 ^ 9)%Z; [|now vm_compute].
      apply Z.pow_le_mono; lia.
Qed.

(** X11.  Option 1 accepts a password exactly when it is not in the corpus,
    contains an uppercase letter, a digit and a punctuation character, and
    has at least 7 characters: with the three classes present the 40-bit
    test is a test on the length. *)
Theorem compliance_characterisation (fs : string -> file) (password : str) :
  (exists rating suggestions,
     fst (check_password_strength fs password) = Compliant rating suggestions)
  <-> fst (check_common_password fs password "common_passwords.txt") = false
      /\ has_upper password = true
      /\ has_digit password = true
      /\ has_special password = true
      /\ 7 <= List.length password.
Proof.
  rewrite check_password_strength_eq. split.
  - intros (rating & suggestions & H).
    destruct password as [|c p]; [discriminate|]. cbv zeta in H. cbn [fst] in H.
    destruct (policy_violation _) eqn:Hv; [discriminate|].
    apply policy_check_no_violation in Hv as (Hc & He & Hu & Hd & Hs).
    repeat split; try assumption.
    rewrite <- INR_40 in He. apply entropy_at_least_iff in He.
    rewrite (proj1 (mandatory_entropy_by_length _ Hu Hd Hs)) in He.
    now apply Nat.leb_le.
  - intros (Hc & Hu & Hd & Hs & HL).
    destruct password as [|c p]; [simpl in HL; lia|]. cbv zeta. cbn [fst].
    assert (Hv : policy_violation
                   (policy_check
                      (fst (check_common_password fs (c :: p)
                              "common_passwords.txt"))
                      (calculate_entropy (c :: p)) (has_upper (c :: p))
                      (has_digit (c :: p)) (has_special (c :: p))) = false).
    { apply policy_check_no_violation. repeat split; try assumption.
      rewrite <- INR_40. apply entropy_at_least_iff.
      rewrite (proj1 (mandatory_entropy_by_length _ Hu Hd Hs)).
      now apply Nat.leb_le. }
    rewrite Hv. eexists. eexists. reflexivity.
Qed.

(** X12.  An accepted password is rated by its length alone: Medium with 7
    to 9 characters, Strong with 10 or more. *)
Theorem rating_by_length (fs : string -> file) (password : str) :
  fst (check_common_password fs password "common_passwords.txt") = false ->
  has_upper password = true ->
  has_digit password = true ->
  has_special password = true ->
  7 <= List.length password ->
  exists suggestions,
    fst (check_password_strength fs password)
    = Compliant (if 10 <=? List.length password then "Strong" else "Medium")
        suggestions.
Proof.
  intros Hc Hu Hd Hs HL.
  destruct (mandatory_entropy_by_length _ Hu Hd Hs) as [H40 H60].
  rewrite <- H60. apply check_password_strength_pass; try assumption.
  - destruct password; [simpl in HL; lia | discriminate].
  - rewrite H40. now apply Nat.leb_le.
Qed.

Lemma rating_by_length_witness :
  exists suggestions,
    fst (check_password_strength empty_corpus (of_string "Ab1!Ab1!"))
    = Compliant
        (if 10 <=? List.length (of_string "Ab1!Ab1!")
         then "Strong" else "Medium")
        suggestions.
Proof.
  apply (@rating_by_length empty_corpus (of_string "Ab1!Ab1!"));
    try reflexivity.
  vm_compute. lia.
Defined.

(** ** ctf_secure_generator *)

Lemma returns_and {A} (m : Rand A) (P Q : A -> Prop) :
  returns m P -> returns m Q -> returns m (fun a => P a /\ Q a).
Proof. intros HP HQ tape i. split; [apply HP | apply HQ]. Qed.

Lemma returns_choice_all (seq : str) :
  seq <> [] -> incl seq all_chars ->
  returns (choice seq) (fun c => In c all_chars).
Proof.
  intros Hne Hincl. eapply returns_weaken; [now apply returns_choice|].
  intros c Hc. now apply Hincl.
Qed.

Lemma returns_append_choices_all (n : nat) (password_chars : str) :
  Forall (fun c => In c all_chars) password_chars ->
  returns (append_choices n all_chars password_chars)
    (Forall (fun c => In c all_chars)).
Proof.
  intros H. eapply returns_weaken;
    [apply returns_append_choices; discriminate|].
  intros r [suffix [-> [_ Hs]]]. apply Forall_app. now split.
Qed.

Lemma incl_all_chars :
  incl ascii_uppercase all_chars /\ incl digits all_chars
  /\ incl punctuation all_chars.
Proof.
  unfold all_chars. repeat split; intros c Hc.
  - apply in_or_app. now left.
  - apply in_or_app. right. apply in_or_app. right. apply in_or_app. now left.
  - apply in_or_app. right. apply in_or_app. right. apply in_or_app. now right.
Qed.

Lemma returns_generator_prefix_all :
  returns generator_prefix (fun p => Forall (fun c => In c all_chars) p).
Proof.
  destruct incl_all_chars as (HU & HD & HS).
  unfold generator_prefix. fold all_chars.
  apply returns_bind with (Q := fun c => In c all_chars);
    [apply returns_choice_all; [discriminate | assumption] | intros u Hu].
  apply returns_bind with (Q := fun c => In c all_chars);
    [apply returns_choice_all; [discriminate | assumption] | intros d Hd].
  apply returns_bind with (Q := fun c => In c all_chars);
    [apply returns_choice_all; [discriminate | assumption] | intros s Hs].
  apply returns_append_choices_all.
  change (Forall (fun c => In c all_chars) [u; d; s]).
  apply Forall_cons; [assumption|]. apply Forall_cons; [assumption|].
  apply Forall_cons; [assumption | apply Forall_nil].
Qed.

Lemma returns_generator_all :
  returns ctf_secure_generator (fun p => Forall (fun c => In c all_chars) p).
Proof.
  unfold ctf_secure_generator. fold all_chars.
  eapply returns_bind; [apply returns_generator_prefix_all|].
  intros q Hq. cbv beta in Hq.
  apply returns_bind with (Q := fun k => 2 <= k <= 6);
    [apply returns_randint; lia | intros k Hk].
  eapply returns_bind; [now apply returns_append_choices_all|].
  intros q' Hq'.
  eapply returns_bind; [apply returns_shuffle|].
  intros p Hp. apply returns_ret.
  eapply Permutation_Forall; [symmetry; exact Hp | exact Hq'].
Qed.

Lemma all_chars_no_space (c : char) : In c all_chars -> isspace c = false.
Proof.
  intros H. unfold all_chars in H. simpl in H.
  repeat (destruct H as [<- | H]; [reflexivity|]). contradiction.
Qed.

(** X13.  A generated password consists of ASCII letters, digits and
    punctuation only; it holds no white space, so stripping leaves it as it
    is. *)
Theorem generated_password_alphabet (tape : nat -> nat) :
  let password := run ctf_secure_generator tape in
  Forall (fun c => In c all_chars) password
  /\ forallb (fun c => negb (isspace c)) password = true
  /\ strip password = password.
Proof.
  cbv zeta. pose proof (returns_run tape returns_generator_all) as H.
  cbv beta in H. set (password := run ctf_secure_generator tape) in *.
  assert (Hns : forall c, In c password -> isspace c = false).
  { intros c Hc. rewrite Forall_forall in H. now apply all_chars_no_space, H. }
  split; [exact H|]. split.
  - apply forallb_forall. intros c Hc. now rewrite (Hns c Hc).
  - unfold strip, rstrip.
    assert (Hl : lstrip password = password).
    { apply lstrip_fixed. destruct password as [|c p]; [exact I|].
      apply Hns. now left. }
    rewrite Hl.
    assert (Hr : lstrip (rev password) = rev password).
    { apply lstrip_fixed. destruct (rev password) as [|c p] eqn:E; [exact I|].
      apply Hns, in_rev. rewrite E. now left. }
    rewrite Hr. apply rev_involutive.
Qed.

Lemma strong_rating (entropy : R) :
  (60 <= entropy)%R ->
  get_strength_rating entropy
  = ("Strong",
     ["Your password has good entropy";
      "Consider using a password manager for even stronger unique passwords";
      "Make sure this password is unique and not reused elsewhere"])%string.
Proof.
  intros H. unfold get_strength_rating.
  destruct (Rlt_dec entropy 40); [lra|].
  destruct (Rlt_dec entropy 60); [lra | reflexivity].
Qed.

Lemma generator_entropy (tape : nat -> nat) :
  (60 <= calculate_entropy (run ctf_secure_generator tape))%R.
Proof.
  destruct (generator_shape tape) as (Hlen & Hu & Hd & Hs).
  apply entropy_60_of_length_10; [lia|].
  pose proof (charset_size_mandatory _ Hu Hd Hs). lia.
Qed.

(** X14.  The compliance report the generator prints never shows FAIL: each
    of its five lines reads PASS, for every password it generates. *)
Theorem generator_report_all_pass (tape : nat -> nat) :
  compliance_report (run ctf_secure_generator tape)
  = ["PASS"; "PASS"; "PASS"; "PASS"; "PASS"]%string.
Proof.
  destruct (generator_shape tape) as (Hlen & Hu & Hd & Hs).
  pose proof (generator_entropy tape) as He.
  unfold compliance_report. fold has_upper has_digit has_special.
  rewrite Hu, Hd, Hs.
  replace (min_length <=? _) with true
    by (symmetry; apply Nat.leb_le; unfold min_length; lia).
  destruct (Rge_dec _ 40); [reflexivity | lra].
Qed.

Lemma policy_check_only_common (entropy : R) :
  (40 <= entropy)%R ->
  policy_check true entropy true true true
  = {| policy_violation := true; violation_reasons := [CommonPassword] |}.
Proof.
  intros H. unfold policy_check. simpl.
  destruct (Rlt_dec entropy 40); [lra | reflexivity].
Qed.

(** X15.  Checking a generated password with option 1 has two possible
    outcomes: it is accepted and rated Strong, or, when the corpus happens to
    list it, refused with the common-password reason as the only reason. *)
Theorem generated_password_verdict (fs : string -> file)
    (tape : nat -> nat) :
  let password := run ctf_secure_generator tape in
  let r := check_common_password fs password "common_passwords.txt" in
  check_password_strength fs password
  = (if fst r then PolicyViolation [CommonPassword]
     else Compliant "Strong"
            ["Your password has good entropy";
             "Consider using a password manager for even stronger unique passwords";
             "Make sure this password is unique and not reused elsewhere"]%string,
     snd r).
Proof.
  cbv zeta. destruct (generator_shape tape) as (Hlen & Hu & Hd & Hs).
  pose proof (generator_entropy tape) as He.
  set (password := run ctf_secure_generator tape) in *.
  rewrite check_password_strength_eq.
  destruct password as [|c p]; [simpl in Hlen; lia|]. cbv zeta.
  rewrite Hu, Hd, Hs, (strong_rating He).
  destruct (fst (check_common_password fs (c :: p) "common_passwords.txt")).
  - rewrite policy_check_only_common by lra. reflexivity.
  - rewrite policy_check_pass by lra. reflexivity.
Qed.
